(** * Guarded allocation macros of [src/util-mem.h]

    A shallow embedding of the allocation wrappers [SCMalloc], [SCRealloc],
    [SCCalloc], [SCStrdup], [SCStrndup], [SCFree], [SCMallocAligned] and
    [SCFreeAligned].  Each macro is a GNU statement expression; it is rendered
    here as a computation in a small state-and-exit monad over a [world]
    holding the process-wide [engine_stage], [errno], the heap of live blocks
    and the trace of what the macro did to its collaborators (gate reads,
    diagnostics, blocks handed out and released).

    The header has three build-time switches.  The [CPPCHECK]/clang-analyzer
    branch only exists for static analysers and aliases the macros to the
    libc functions; the embedding follows the [#else] branch that is
    compiled into the engine.  [HAVE_STRNDUP] and [_WIN32] select between two
    bodies of [SCStrndup] and of the aligned pair; both bodies are embedded,
    each in a module named after its branch. *)

From Stdlib Require Import ZArith Lia.
From Stdlib Require Import Strings.Byte Strings.String.
From stdpp Require Import gmap strings list fin_maps.

Open Scope Z_scope.

(** ** Values *)

(** A [char].  Equality on bytes is decided by the library's boolean test. *)
#[global] Instance byte_eq_dec : EqDecision byte := Byte.byte_eq_dec.

(** A [void *]: either [NULL] or the base of a block.  The macros never do
    arithmetic on a pointer except for the one indexed store of the
    [SCStrndup] fallback, which is modelled as a store at an offset. *)
Inductive ptr : Type :=
| NULL
| Ptr (b : positive).

#[global] Instance ptr_eq_dec : EqDecision ptr.
Proof. solve_decision. Defined.

(** [size_t] and [uintmax_t] are 64 bits wide on the targets of the engine;
    a conversion to either wraps. *)
Definition SIZE_WIDTH : Z := 64.
Definition SIZE_MODULUS : Z := 2 ^ SIZE_WIDTH.
Definition SIZE_MAX : Z := SIZE_MODULUS - 1.
Definition size_t (a : Z) : Z := a mod SIZE_MODULUS.
Definition uintmax_t (a : Z) : Z := a mod SIZE_MODULUS.

(** A C string argument is given by the bytes found at its address: the
    string ends at the first NUL, or at the end of the list (the terminator
    is then the byte that follows). *)
Fixpoint c_str (a : list byte) : list byte :=
  match a with
  | [] => []
  | c :: a' => if bool_decide (c = x00) then [] else c :: c_str a'
  end.

Definition strlen (a : list byte) : Z := Z.of_nat (length (c_str a)).

(** ** Constants declared outside this header *)

(** Modelled from the spec: the lifecycle enumerators live in [suricata.h],
    which is not part of the sources at hand.  The spec only requires an
    [INITIALIZING] value distinct from the running one; the enumeration
    starts at [SURICATA_INIT]. *)
Definition SURICATA_INIT : Z := 0.
Definition SURICATA_RUNTIME : Z := 1.
Definition SURICATA_DEINIT : Z := 2.

(** [<stdlib.h>]: the two portable arguments of [exit]. *)
Definition EXIT_SUCCESS : Z := 0.
Definition EXIT_FAILURE : Z := 1.

(** The two error categories of [util-error.h] that the macros pass to
    [SCLogError]. *)
Inductive SCError : Type :=
| SC_ERR_MEM_ALLOC
| SC_ERR_FATAL.

#[global] Instance SCError_eq_dec : EqDecision SCError.
Proof. solve_decision. Defined.

(** ** The world *)

(** What one [SCLogError] call hands to the logging subsystem: the category,
    the format string, and the arguments filling its conversions: the
    [errno] given to [strerror], the byte count and the alignment. *)
Record DiagnosticRecord : Type := mkDiag {
  category : SCError;
  message : string;
  syserr : option Z;
  bytes : option Z;
  alignment : option Z
}.

(** The two allocator families: libc ([malloc] ... [free]) and the
    intrinsics header ([_mm_malloc]/[_mm_free]). *)
Inductive family : Type :=
| Libc
| Mm.

Inductive event : Type :=
| EvGateRead (stage : Z)
| EvLog (d : DiagnosticRecord)
| EvAlloc (f : family) (p : positive) (size : Z)
| EvRelease (f : family) (p : positive).

Record world : Type := mkWorld {
  engine_stage : Z;
  errno : Z;
  heap : gmap positive (list byte);
  trace : list event
}.

Definition set_errno (e : Z) (w : world) : world :=
  mkWorld (engine_stage w) e (heap w) (trace w).

Definition set_heap (h : gmap positive (list byte)) (w : world) : world :=
  mkWorld (engine_stage w) (errno w) h (trace w).

Definition emit (e : event) (w : world) : world :=
  mkWorld (engine_stage w) (errno w) (heap w) (trace w ++ [e]).

(** The diagnostics emitted so far, oldest first. *)
Definition diagnostics (w : world) : list DiagnosticRecord :=
  omap (fun e => match e with EvLog d => Some d | _ => None end) (trace w).

(** The values read from the gate so far. *)
Definition gate_reads (w : world) : list Z :=
  omap (fun e => match e with EvGateRead v => Some v | _ => None end) (trace w).

(** The blocks released so far. *)
Definition released (w : world) : list positive :=
  omap (fun e => match e with EvRelease _ p => Some p | _ => None end) (trace w).

(** ** Computations *)

(** A statement either runs to its end, or calls [exit], or steps outside
    what C defines (a store outside a block, releasing what is not live). *)
Inductive outcome (A : Type) : Type :=
| Returns (v : A) (w : world)
| Exits (status : Z) (w : world)
| Undefined.

Arguments Returns {A} v w.
Arguments Exits {A} status w.
Arguments Undefined {A}.

Definition M (A : Type) : Type := world -> outcome A.

#[global] Instance M_ret : MRet M := fun A v w => Returns v w.

#[global] Instance M_bind : MBind M := fun A B f m w =>
  match m w with
  | Returns v w' => f v w'
  | Exits s w' => Exits s w'
  | Undefined => Undefined
  end.

(** The world an outcome ends in, when there is one. *)
Definition final_world {A} (o : outcome A) : option world :=
  match o with
  | Returns _ w => Some w
  | Exits _ w => Some w
  | Undefined => None
  end.

(** [exit(status)]: never returns. *)
Definition exit {A} (status : Z) : M A := fun w => Exits status w.

(** [SC_ATOMIC_GET(engine_stage)]. *)
Definition SC_ATOMIC_GET_engine_stage : M Z :=
  fun w => Returns (engine_stage w) (emit (EvGateRead (engine_stage w)) w).

(** [errno], as read for [strerror(errno)]. *)
Definition get_errno : M Z := fun w => Returns (errno w) w.

(** [SCLogError(category, fmt, ...)]. *)
Definition SCLogError (c : SCError) (fmt : string)
    (e size align : option Z) : M unit :=
  fun w => Returns tt (emit (EvLog (mkDiag c fmt e size align)) w).

(** ** The allocator beneath the macros

    The libc and intrinsics primitives are outside the header.  What each
    call answers is not decided by the program, so the answer is an argument:
    a failure with the [errno] it leaves, or the base of the block handed out
    together with the indeterminate bytes found in it. *)
Inductive alloc_reply : Type :=
| AllocFail (e : Z)
| AllocOk (p : positive) (junk : nat -> byte).

(** [posix_memalign] answers through two channels: the status it returns
    and the pointer it may have stored through its first argument.  POSIX
    does not make it set [errno], yet an implementation may (glibc leaves
    [ENOMEM] there when it runs out of memory): [pm_errno] is the value it
    writes, if it writes one. *)
Record memalign_reply : Type := mkMemalign {
  pm_status : Z;
  pm_errno : option Z;
  pm_block : option (positive * (nat -> byte))
}.

(** What [realloc] answers.  For a live block and a size of zero the C
    standard leaves it to the implementation whether the block is released
    and [NULL] returned (glibc does so): [rr_zero_frees] tells whether this
    allocator does.  In every other case the answer is [rr_answer]. *)
Record realloc_reply : Type := mkRealloc {
  rr_zero_frees : bool;
  rr_answer : alloc_reply
}.

Definition ENOMEM : Z := 12.

(** The contents of a block of [size] bytes that nobody has written yet. *)
Definition fresh_block (junk : nat -> byte) (size : Z) : list byte :=
  map junk (seq 0 (Z.to_nat size)).

Definition hand_out (f : family) (p : positive) (blk : list byte) (w : world)
    : world :=
  emit (EvAlloc f p (Z.of_nat (length blk))) (set_heap (<[p := blk]> (heap w)) w).

Definition give_back (f : family) (p : positive) (w : world) : world :=
  emit (EvRelease f p) (set_heap (delete p (heap w)) w).

Definition malloc (size : Z) (r : alloc_reply) : M ptr :=
  fun w =>
    match r with
    | AllocFail e => Returns NULL (set_errno e w)
    | AllocOk p junk => Returns (Ptr p) (hand_out Libc p (fresh_block junk size) w)
    end.

(** [calloc] fails by itself when the product does not fit a [size_t]. *)
Definition calloc (nm a : Z) (r : alloc_reply) : M ptr :=
  fun w =>
    if bool_decide (SIZE_MODULUS <= nm * a) then Returns NULL (set_errno ENOMEM w)
    else
      match r with
      | AllocFail e => Returns NULL (set_errno e w)
      | AllocOk p _ =>
          Returns (Ptr p) (hand_out Libc p (replicate (Z.to_nat (nm * a)) x00) w)
      end.

(** [realloc(NULL, n)] is [malloc(n)]; [realloc(p, 0)] may release the
    block and return [NULL] without having failed; a failed [realloc] leaves
    the old block alone; a successful one moves the common prefix. *)
Definition realloc (x : ptr) (size : Z) (r : realloc_reply) : M ptr :=
  fun w =>
    match x with
    | NULL => malloc size (rr_answer r) w
    | Ptr q =>
        match heap w !! q with
        | None => Undefined
        | Some old =>
            if rr_zero_frees r && bool_decide (size = 0) then
              Returns NULL (give_back Libc q w)
            else
              match rr_answer r with
              | AllocFail e => Returns NULL (set_errno e w)
              | AllocOk p junk =>
                  let n := Z.to_nat size in
                  let blk := take n old ++ drop (length old) (fresh_block junk size) in
                  Returns (Ptr p) (hand_out Libc p blk (give_back Libc q w))
              end
        end
    end.

Definition strdup (a : list byte) (r : alloc_reply) : M ptr :=
  fun w =>
    match r with
    | AllocFail e => Returns NULL (set_errno e w)
    | AllocOk p _ => Returns (Ptr p) (hand_out Libc p (c_str a ++ [x00]) w)
    end.

Definition strndup (a : list byte) (n : Z) (r : alloc_reply) : M ptr :=
  fun w =>
    match r with
    | AllocFail e => Returns NULL (set_errno e w)
    | AllocOk p _ =>
        Returns (Ptr p) (hand_out Libc p (take (Z.to_nat n) (c_str a) ++ [x00]) w)
    end.

(** The number of bytes [strdup(a)] asks of the allocator. *)
Definition strdup_request (a : list byte) : Z := strlen a + 1.

(** [free(NULL)] does nothing; releasing what is not live is undefined. *)
Definition free (x : ptr) : M unit :=
  fun w =>
    match x with
    | NULL => Returns tt w
    | Ptr q =>
        match heap w !! q with
        | None => Undefined
        | Some _ => Returns tt (give_back Libc q w)
        end
    end.

Definition _mm_malloc (size align : Z) (r : alloc_reply) : M ptr :=
  fun w =>
    match r with
    | AllocFail e => Returns NULL (set_errno e w)
    | AllocOk p junk => Returns (Ptr p) (hand_out Mm p (fresh_block junk size) w)
    end.

Definition _mm_free (x : ptr) : M unit :=
  fun w =>
    match x with
    | NULL => Returns tt w
    | Ptr q =>
        match heap w !! q with
        | None => Undefined
        | Some _ => Returns tt (give_back Mm q w)
        end
    end.

(** [errno] after a call that wrote [err] there, or wrote nothing. *)
Definition leave_errno (err : option Z) (w : world) : world :=
  match err with
  | Some e => set_errno e w
  | None => w
  end.

(** [posix_memalign(&memptr, alignment, size)]: the status, and the value
    of [memptr] after the call.  [errno] is what the call left there. *)
Definition posix_memalign (memptr : ptr) (alignment size : Z)
    (r : memalign_reply) : M (Z * ptr) :=
  fun w =>
    let w0 := leave_errno (pm_errno r) w in
    match pm_block r with
    | None => Returns (pm_status r, memptr) w0
    | Some (p, junk) =>
        Returns (pm_status r, Ptr p) (hand_out Libc p (fresh_block junk size) w0)
    end.

(** Modelled from the spec: [strlcpy] is the bounded copy used by the
    [SCStrndup] fallback; its definition is outside this header.  It copies
    at most [siz - 1] bytes of the source string and always terminates the
    destination when [siz] is not zero; it writes nothing beyond the
    terminator, and returns the length of the source. *)
Fixpoint strlcpy_copy (src : list byte) (room : nat) {struct room}
    : list byte :=
  match room with
  | O => [x00]
  | S room' =>
      match src with
      | [] => [x00]
      | c :: src' =>
          if bool_decide (c = x00) then [x00] else c :: strlcpy_copy src' room'
      end
  end.

Definition strlcpy_image (src : list byte) (siz : Z) : list byte :=
  if bool_decide (siz = 0) then [] else strlcpy_copy src (Z.to_nat (siz - 1)).

Definition strlcpy (dst : ptr) (src : list byte) (siz : Z) : M Z :=
  fun w =>
    match dst with
    | NULL => Undefined
    | Ptr q =>
        match heap w !! q with
        | None => Undefined
        | Some blk =>
            let out := strlcpy_image src siz in
            if bool_decide (length out ≤ length blk)%nat then
              Returns (strlen src)
                (set_heap (<[q := out ++ drop (length out) blk]> (heap w)) w)
            else Undefined
        end
    end.

(** [*(p + off) = v]: a store inside a live block, undefined elsewhere. *)
Definition store (p : ptr) (off : Z) (v : byte) : M unit :=
  fun w =>
    match p with
    | NULL => Undefined
    | Ptr q =>
        match heap w !! q with
        | None => Undefined
        | Some blk =>
            if bool_decide (0 <= off < Z.of_nat (length blk)) then
              Returns tt (set_heap (<[q := <[Z.to_nat off := v]> blk]> (heap w)) w)
            else Undefined
        end
    end.

(** ** The macros *)

Definition OUT_OF_MEMORY : string :=
  "Out of memory. The engine cannot be initialized. Exiting...".

Definition SCMalloc (a : Z) (r : alloc_reply) : M ptr :=
  ptrmem ← malloc (size_t a) r;
  (if bool_decide (ptrmem = NULL) then
     stage ← SC_ATOMIC_GET_engine_stage;
     if bool_decide (stage = SURICATA_INIT) then
       let scmalloc_size_ := uintmax_t a in
       e ← get_errno;
       SCLogError SC_ERR_MEM_ALLOC
         "SCMalloc failed: %s, while trying to allocate %ju bytes"
         (Some e) (Some scmalloc_size_) None;;
       SCLogError SC_ERR_FATAL OUT_OF_MEMORY None None None;;
       exit EXIT_FAILURE
     else mret tt
   else mret tt);;
  mret ptrmem.

Definition SCRealloc (x : ptr) (a : Z) (r : realloc_reply) : M ptr :=
  ptrmem ← realloc x (size_t a) r;
  (if bool_decide (ptrmem = NULL) then
     stage ← SC_ATOMIC_GET_engine_stage;
     if bool_decide (stage = SURICATA_INIT) then
       e ← get_errno;
       SCLogError SC_ERR_MEM_ALLOC
         "SCRealloc failed: %s, while trying to allocate %ju bytes"
         (Some e) (Some (uintmax_t a)) None;;
       SCLogError SC_ERR_FATAL OUT_OF_MEMORY None None None;;
       exit EXIT_FAILURE
     else mret tt
   else mret tt);;
  mret ptrmem.

Definition SCCalloc (nm a : Z) (r : alloc_reply) : M ptr :=
  ptrmem ← calloc (size_t nm) (size_t a) r;
  (if bool_decide (ptrmem = NULL) then
     stage ← SC_ATOMIC_GET_engine_stage;
     if bool_decide (stage = SURICATA_INIT) then
       e ← get_errno;
       SCLogError SC_ERR_MEM_ALLOC
         "SCCalloc failed: %s, while trying to allocate %ju bytes"
         (Some e) (Some (uintmax_t a)) None;;
       SCLogError SC_ERR_FATAL OUT_OF_MEMORY None None None;;
       exit EXIT_FAILURE
     else mret tt
   else mret tt);;
  mret ptrmem.

Definition SCStrdup (a : list byte) (r : alloc_reply) : M ptr :=
  ptrmem ← strdup a r;
  (if bool_decide (ptrmem = NULL) then
     stage ← SC_ATOMIC_GET_engine_stage;
     if bool_decide (stage = SURICATA_INIT) then
       let _scstrdup_len := strlen a in
       e ← get_errno;
       SCLogError SC_ERR_MEM_ALLOC
         "SCStrdup failed: %s, while trying to allocate %ju bytes"
         (Some e) (Some (uintmax_t _scstrdup_len)) None;;
       SCLogError SC_ERR_FATAL OUT_OF_MEMORY None None None;;
       exit EXIT_FAILURE
     else mret tt
   else mret tt);;
  mret ptrmem.

(** The body compiled when the platform has no [strndup]. *)
Module NoStrndup.

Definition SCStrndup (a : list byte) (b : Z) (r : alloc_reply) : M ptr :=
  let _len := size_t b in
  let _scstrndup_len := size_t (_len + 1) in
  ptrmem ← malloc _scstrndup_len r;
  (if bool_decide (ptrmem = NULL) then
     stage ← SC_ATOMIC_GET_engine_stage;
     if bool_decide (stage = SURICATA_INIT) then
       e ← get_errno;
       SCLogError SC_ERR_MEM_ALLOC
         "SCStrndup failed: %s, while trying to allocate %ju bytes"
         (Some e) (Some (uintmax_t _scstrndup_len)) None;;
       SCLogError SC_ERR_FATAL OUT_OF_MEMORY None None None;;
       exit EXIT_FAILURE
     else mret tt
   else
     strlcpy ptrmem a _scstrndup_len;;
     store ptrmem _len x00);;
  mret ptrmem.

End NoStrndup.

(** The body compiled when [HAVE_STRNDUP] is defined. *)
Module HaveStrndup.

Definition SCStrndup (a : list byte) (b : Z) (r : alloc_reply) : M ptr :=
  ptrmem ← strndup a (size_t b) r;
  (if bool_decide (ptrmem = NULL) then
     stage ← SC_ATOMIC_GET_engine_stage;
     if bool_decide (stage = SURICATA_INIT) then
       let _scstrndup_len := size_t b in
       e ← get_errno;
       SCLogError SC_ERR_MEM_ALLOC
         "SCStrndup failed: %s, while trying to allocate %ju bytes"
         (Some e) (Some (uintmax_t _scstrndup_len)) None;;
       SCLogError SC_ERR_FATAL OUT_OF_MEMORY None None None;;
       exit EXIT_FAILURE
     else mret tt
   else mret tt);;
  mret ptrmem.

End HaveStrndup.

Definition SCFree (a : ptr) : M unit := free a.

(** The aligned pair under [_WIN32]. *)
Module Win32.

Definition SCMallocAligned (a b : Z) (r : alloc_reply) : M ptr :=
  ptrmem ← _mm_malloc (size_t a) (size_t b) r;
  (if bool_decide (ptrmem = NULL) then
     stage ← SC_ATOMIC_GET_engine_stage;
     if bool_decide (stage = SURICATA_INIT) then
       e ← get_errno;
       SCLogError SC_ERR_MEM_ALLOC
         "SCMallocAligned(posix_memalign) failed: %s, while trying to allocate %ju bytes, alignment %ju"
         (Some e) (Some (uintmax_t a)) (Some (uintmax_t b));;
       SCLogError SC_ERR_FATAL OUT_OF_MEMORY None None None;;
       exit EXIT_FAILURE
     else mret tt
   else mret tt);;
  mret ptrmem.

Definition SCFreeAligned (a : ptr) : M unit := _mm_free a.

End Win32.

(** The aligned pair everywhere else. *)
Module Posix.

Definition SCMallocAligned (a b : Z) (r : memalign_reply) : M ptr :=
  '(_r, ptrmem) ← posix_memalign NULL (size_t b) (size_t a) r;
  if bool_decide (_r ≠ 0) || bool_decide (ptrmem = NULL) then
    ptrmem ← (if bool_decide (ptrmem ≠ NULL) then free ptrmem;; mret NULL
              else mret ptrmem);
    stage ← SC_ATOMIC_GET_engine_stage;
    (if bool_decide (stage = SURICATA_INIT) then
       e ← get_errno;
       SCLogError SC_ERR_MEM_ALLOC
         "SCMallocAligned(posix_memalign) failed: %s, while trying to allocate %ju bytes, alignment %ju"
         (Some e) (Some (uintmax_t a)) (Some (uintmax_t b));;
       SCLogError SC_ERR_FATAL OUT_OF_MEMORY None None None;;
       exit EXIT_FAILURE
     else mret tt);;
    mret ptrmem
  else mret ptrmem.

Definition SCFreeAligned (a : ptr) : M unit := free a.

End Posix.

(** ** The facade as a whole *)

(** One constructor per macro body of the header, carrying the macro's
    arguments and the answer of the primitive it invokes. *)
Inductive call : Type :=
| CallMalloc (a : Z) (r : alloc_reply)
| CallRealloc (x : ptr) (a : Z) (r : realloc_reply)
| CallCalloc (nm a : Z) (r : alloc_reply)
| CallStrdup (a : list byte) (r : alloc_reply)
| CallStrndupFallback (a : list byte) (b : Z) (r : alloc_reply)
| CallStrndup (a : list byte) (b : Z) (r : alloc_reply)
| CallFree (a : ptr)
| CallMallocAlignedWin32 (a b : Z) (r : alloc_reply)
| CallFreeAlignedWin32 (a : ptr)
| CallMallocAligned (a b : Z) (r : memalign_reply)
| CallFreeAligned (a : ptr).

(** The value of an allocating macro is its pointer; the two releasing
    macros have none. *)
Definition returning (m : M ptr) : M (option ptr) := p ← m; mret (Some p).
Definition void (m : M unit) : M (option ptr) := m;; mret None.

Definition exec (c : call) : M (option ptr) :=
  match c with
  | CallMalloc a r => returning (SCMalloc a r)
  | CallRealloc x a r => returning (SCRealloc x a r)
  | CallCalloc nm a r => returning (SCCalloc nm a r)
  | CallStrdup a r => returning (SCStrdup a r)
  | CallStrndupFallback a b r => returning (NoStrndup.SCStrndup a b r)
  | CallStrndup a b r => returning (HaveStrndup.SCStrndup a b r)
  | CallFree a => void (SCFree a)
  | CallMallocAlignedWin32 a b r => returning (Win32.SCMallocAligned a b r)
  | CallFreeAlignedWin32 a => void (Win32.SCFreeAligned a)
  | CallMallocAligned a b r => returning (Posix.SCMallocAligned a b r)
  | CallFreeAligned a => void (Posix.SCFreeAligned a)
  end.

Definition returns_null (o : outcome ptr) : bool :=
  match o with
  | Returns NULL _ => true
  | _ => false
  end.

Definition memalign_failed (o : outcome (Z * ptr)) : bool :=
  match o with
  | Returns (_r, ptrmem) _ => bool_decide (_r ≠ 0) || bool_decide (ptrmem = NULL)
  | _ => false
  end.

(** The answer of the primitive does not pass the test the macro makes of
    it in world [w]: it returned [NULL], or, for [posix_memalign], a non-zero
    status or no pointer.  This is what a macro takes for a failure; it also
    holds of a [NULL] that reports none, such as the [NULL] of a
    [realloc(p, 0)] that has released the block.  The releasing macros test
    nothing. *)
Definition primitive_fails (c : call) (w : world) : bool :=
  match c with
  | CallMalloc a r => returns_null (malloc (size_t a) r w)
  | CallRealloc x a r => returns_null (realloc x (size_t a) r w)
  | CallCalloc nm a r => returns_null (calloc (size_t nm) (size_t a) r w)
  | CallStrdup a r => returns_null (strdup a r w)
  | CallStrndupFallback a b r => returns_null (malloc (size_t (size_t b + 1)) r w)
  | CallStrndup a b r => returns_null (strndup a (size_t b) r w)
  | CallMallocAlignedWin32 a b r =>
      returns_null (_mm_malloc (size_t a) (size_t b) r w)
  | CallMallocAligned a b r =>
      memalign_failed (posix_memalign NULL (size_t b) (size_t a) r w)
  | CallFree _ | CallFreeAlignedWin32 _ | CallFreeAligned _ => false
  end.

(** The record of the second [SCLogError] of every fatal path. *)
Definition fatal_record : DiagnosticRecord :=
  mkDiag SC_ERR_FATAL OUT_OF_MEMORY None None None.

(** ** Vocabulary of the properties *)

(** The shape of a fatal path: the gate is read, the two records are
    emitted, and the process exits with [EXIT_FAILURE]. *)
Definition fatal_world (d : DiagnosticRecord) (w : world) : world :=
  emit (EvLog fatal_record) (emit (EvLog d) (emit (EvGateRead (engine_stage w)) w)).

Definition quiet_world (w : world) : world :=
  emit (EvGateRead (engine_stage w)) w.

(** What every allocating macro does once its primitive has failed and left
    the world [w1]: exit after two records when initialising, return [NULL]
    after only reading the gate otherwise. *)
Definition failure_policy (c : call) (w : world) : Prop :=
  ∃ w1, diagnostics w1 = diagnostics w ∧ engine_stage w1 = engine_stage w ∧
    if bool_decide (engine_stage w = SURICATA_INIT) then
      ∃ d, category d = SC_ERR_MEM_ALLOC ∧
           exec c w = Exits EXIT_FAILURE (fatal_world d w1)
    else exec c w = Returns (Some NULL) (quiet_world w1).

(** Two worlds with an empty heap and nothing done yet: one before the
    engine has finished initialising, one after. *)
Definition boot_world : world := mkWorld SURICATA_INIT 0 ∅ [].
Definition run_world : world := mkWorld SURICATA_RUNTIME 0 ∅ [].

(** An exit status reserved for running out of memory while initialising:
    neither the status of a graceful exit nor the generic failure status
    that every other failing exit passes. *)
Definition dedicated_oom_status (s : Z) : Prop :=
  s ≠ EXIT_SUCCESS ∧ s ≠ EXIT_FAILURE.

(** A computation keeps the stage when every world it can end in, by
    returning or by exiting, has the [engine_stage] it started with. *)
Definition keeps_stage {A} (m : M A) : Prop :=
  ∀ w w', final_world (m w) = Some w' → engine_stage w' = engine_stage w.

(** The record of the first [SCLogError] of the fatal path of
    [Posix.SCMallocAligned]. *)
Definition aligned_record (a b : Z) (w : world) : DiagnosticRecord :=
  mkDiag SC_ERR_MEM_ALLOC
    "SCMallocAligned(posix_memalign) failed: %s, while trying to allocate %ju bytes, alignment %ju"
    (Some (errno w)) (Some (uintmax_t a)) (Some (uintmax_t b)).

(** The block the fallback leaves behind: the image of [strlcpy] laid over
    the fresh bytes, then the terminator stored at [b]. *)
Definition strndup_block (a : list byte) (b : Z) (junk : nat → byte)
    : list byte :=
  let out := strlcpy_image a (b + 1) in
  <[Z.to_nat b := x00]> (out ++ drop (length out) (fresh_block junk (b + 1))).

Definition hello : list byte := list_byte_of_string "hello".
Definition abc : list byte := list_byte_of_string "abc".

(** The block [posix_memalign] has stored through its first argument, if
    any; no other primitive hands out a block together with a failure. *)
Definition stored_block (c : call) : option positive :=
  match c with
  | CallMallocAligned _ _ r => fst <$> pm_block r
  | _ => None
  end.

(** The block a [realloc(p, 0)] releases when the allocator answers a size
    of zero by releasing; no other call made of a live block and a size
    releases anything while returning [NULL]. *)
Definition released_on_zero (c : call) : option positive :=
  match c with
  | CallRealloc (Ptr q) a r =>
      if rr_zero_frees r && bool_decide (size_t a = 0) then Some q else None
  | _ => None
  end.

(** A running world in which block 5 is live and holds one byte, and the
    same while the engine initialises. *)
Definition live_world : world := hand_out Libc 5 [x00] run_world.
Definition live_boot_world : world := hand_out Libc 5 [x00] boot_world.

(** ** Properties *)

Lemma diagnostics_emit_log d w :
  diagnostics (emit (EvLog d) w) = diagnostics w ++ [d].
Proof. unfold diagnostics, emit. simpl. rewrite omap_app. reflexivity. Qed.

Lemma diagnostics_emit_gate v w :
  diagnostics (emit (EvGateRead v) w) = diagnostics w.
Proof.
  unfold diagnostics, emit. simpl. rewrite omap_app. simpl.
  apply app_nil_r.
Qed.

Lemma diagnostics_give_back f p w : diagnostics (give_back f p w) = diagnostics w.
Proof.
  unfold diagnostics, give_back, emit. simpl. rewrite omap_app. simpl.
  apply app_nil_r.
Qed.

Lemma diagnostics_hand_out f p blk w :
  diagnostics (hand_out f p blk w) = diagnostics w.
Proof.
  unfold diagnostics, hand_out, emit. simpl. rewrite omap_app. simpl.
  apply app_nil_r.
Qed.

Lemma diagnostics_set_errno e w : diagnostics (set_errno e w) = diagnostics w.
Proof. reflexivity. Qed.

Lemma diagnostics_set_heap h w : diagnostics (set_heap h w) = diagnostics w.
Proof. reflexivity. Qed.

(** Unfolds the monad and the macro bodies down to the primitives. *)
Ltac unfold_macros :=
  unfold exec, returning, void,
    SCMalloc, SCRealloc, SCCalloc, SCStrdup, SCFree,
    NoStrndup.SCStrndup, HaveStrndup.SCStrndup,
    Win32.SCMallocAligned, Win32.SCFreeAligned,
    Posix.SCMallocAligned, Posix.SCFreeAligned,
    SC_ATOMIC_GET_engine_stage, get_errno, SCLogError, exit,
    mbind, M_bind, mret, M_ret in *.

Lemma diagnostics_fatal_world d w :
  diagnostics (fatal_world d w) = diagnostics w ++ [d; fatal_record].
Proof.
  unfold fatal_world.
  rewrite !diagnostics_emit_log, diagnostics_emit_gate, <- app_assoc.
  reflexivity.
Qed.

Lemma diagnostics_quiet_world w : diagnostics (quiet_world w) = diagnostics w.
Proof. apply diagnostics_emit_gate. Qed.

Ltac close_policy :=
  match goal with
  | |- context [bool_decide (engine_stage ?w = SURICATA_INIT)] =>
      destruct (bool_decide (engine_stage w = SURICATA_INIT)); simpl;
      [eexists; split; [| reflexivity]; reflexivity | reflexivity]
  end.

Ltac policy_at w1 :=
  exists w1; split; [reflexivity |]; split; [reflexivity |];
  unfold_macros; simpl; close_policy.

Lemma failure_policy_holds c w :
  primitive_fails c w = true → failure_policy c w.
Proof.
  unfold failure_policy.
  destruct c; simpl; intros Hf; try discriminate.
  - destruct r; simpl in Hf; try discriminate. policy_at (set_errno e w).
  - destruct r as [zf r]. destruct x as [|q]; simpl in Hf.
    + destruct r; simpl in Hf; try discriminate.
      policy_at (set_errno e w).
    + unfold realloc in *. destruct (heap w !! q) eqn:Hq; try discriminate.
      simpl in Hf.
      destruct (zf && bool_decide (size_t a = 0)) eqn:Hz.
      * exists (give_back Libc q w).
        split; [apply diagnostics_give_back|]. split; [reflexivity|].
        unfold_macros. unfold realloc. rewrite Hq. simpl. rewrite Hz. simpl.
        close_policy.
      * destruct r; simpl in Hf; try discriminate.
        exists (set_errno e w). split; [reflexivity|]. split; [reflexivity|].
        unfold_macros. unfold realloc. rewrite Hq. simpl. rewrite Hz. simpl.
        close_policy.
  - unfold calloc in *. case_bool_decide as Hov.
    + exists (set_errno ENOMEM w). split; [reflexivity|]. split; [reflexivity|].
      unfold_macros. unfold calloc. rewrite (bool_decide_true _ Hov).
      simpl. close_policy.
    + destruct r; simpl in Hf; try discriminate.
      exists (set_errno e w). split; [reflexivity|]. split; [reflexivity|].
      unfold_macros. unfold calloc. rewrite (bool_decide_false _ Hov).
      simpl. close_policy.
  - destruct r; simpl in Hf; try discriminate. policy_at (set_errno e w).
  - destruct r; simpl in Hf; try discriminate. policy_at (set_errno e w).
  - destruct r; simpl in Hf; try discriminate. policy_at (set_errno e w).
  - destruct r; simpl in Hf; try discriminate. policy_at (set_errno e w).
  - destruct r as [st err [[p junk]|]]; unfold posix_memalign in Hf;
      simpl in Hf.
    + rewrite orb_false_r in Hf. apply bool_decide_eq_true in Hf.
      exists (give_back Libc p
                (hand_out Libc p (fresh_block junk (size_t a))
                   (leave_errno err w))).
      split; [rewrite diagnostics_give_back, diagnostics_hand_out;
              destruct err; reflexivity|].
      split; [destruct err; reflexivity|].
      unfold_macros. unfold posix_memalign, free. simpl.
      rewrite (bool_decide_true _ Hf). simpl.
      rewrite lookup_insert_eq. simpl.
      destruct err; simpl; close_policy.
    + exists (leave_errno err w).
      split; [destruct err; reflexivity|]. split; [destruct err; reflexivity|].
      unfold_macros. unfold posix_memalign. simpl.
      rewrite orb_true_r. simpl.
      destruct err; simpl; close_policy.
Qed.

(** C1.  Whenever the primitive beneath an allocating macro (allocate,
    allocate-zeroed, resize, duplicate-string, either duplicate-substring,
    either aligned allocate) fails, the phase alone decides what happens:
    while [engine_stage] is [SURICATA_INIT] two diagnostics are emitted (the
    allocation error, then the fatal record) and the process exits; in any
    other phase the macro returns [NULL], emits no diagnostic and does not
    exit. *)
Theorem allocation_failure_is_phase_gated (c : call) (w : world) :
  primitive_fails c w = true →
  (engine_stage w = SURICATA_INIT →
     ∃ w' d, exec c w = Exits EXIT_FAILURE w' ∧
             category d = SC_ERR_MEM_ALLOC ∧
             diagnostics w' = diagnostics w ++ [d; fatal_record])
  ∧ (engine_stage w ≠ SURICATA_INIT →
     ∃ w', exec c w = Returns (Some NULL) w' ∧
           diagnostics w' = diagnostics w).
Proof.
  intros Hf. destruct (failure_policy_holds c w Hf) as (w1 & Hd & _ & Hp).
  split; intros Hs.
  - rewrite (bool_decide_true _ Hs) in Hp. destruct Hp as (d & Hc & He).
    exists (fatal_world d w1), d. split; [exact He|]. split; [exact Hc|].
    rewrite diagnostics_fatal_world, Hd. reflexivity.
  - rewrite (bool_decide_false _ Hs) in Hp.
    exists (quiet_world w1). split; [exact Hp|].
    rewrite diagnostics_quiet_world. exact Hd.
Qed.

Lemma allocation_failure_is_phase_gated_witness :
  (∃ w' d, exec (CallMalloc 4 (AllocFail ENOMEM)) boot_world = Exits EXIT_FAILURE w' ∧
           category d = SC_ERR_MEM_ALLOC ∧
           diagnostics w' = diagnostics boot_world ++ [d; fatal_record])
  ∧ (∃ w', exec (CallMalloc 4 (AllocFail ENOMEM)) run_world = Returns (Some NULL) w' ∧
           diagnostics w' = diagnostics run_world).
Proof.
  split.
  - apply (allocation_failure_is_phase_gated
             (CallMalloc 4 (AllocFail ENOMEM)) boot_world); reflexivity.
  - apply (allocation_failure_is_phase_gated
             (CallMalloc 4 (AllocFail ENOMEM)) run_world);
      [reflexivity | discriminate].
Defined.

(** C3, as stated, fails: [SCMalloc(16)] failing while the engine is
    initialising exits with [EXIT_FAILURE], the generic failure status. *)
Lemma fatal_status_is_the_generic_one :
  primitive_fails (CallMalloc 16 (AllocFail ENOMEM)) boot_world = true ∧
  engine_stage boot_world = SURICATA_INIT ∧
  ∃ w', exec (CallMalloc 16 (AllocFail ENOMEM)) boot_world = Exits EXIT_FAILURE w' ∧
        ¬ dedicated_oom_status EXIT_FAILURE.
Proof.
  split; [reflexivity|]. split; [reflexivity|].
  eexists. split; [reflexivity|].
  intros [_ Hne]. apply Hne. reflexivity.
Qed.

(** C3, amended.  Every fatal allocation failure exits with [EXIT_FAILURE]:
    a status that differs from the graceful [EXIT_SUCCESS], and the same for
    every macro.  What tells the cause is the diagnostics, not the status:
    the last record emitted before the exit is the [SC_ERR_FATAL]
    out-of-memory record. *)
Theorem fatal_failure_exits_with_EXIT_FAILURE (c : call) (w : world) :
  primitive_fails c w = true →
  engine_stage w = SURICATA_INIT →
  ∃ w', exec c w = Exits EXIT_FAILURE w' ∧
        EXIT_FAILURE ≠ EXIT_SUCCESS ∧
        last (diagnostics w') = Some fatal_record ∧
        category fatal_record = SC_ERR_FATAL ∧
        message fatal_record = OUT_OF_MEMORY.
Proof.
  intros Hf Hs. destruct (failure_policy_holds c w Hf) as (w1 & Hd & _ & Hp).
  rewrite (bool_decide_true _ Hs) in Hp. destruct Hp as (d & Hc & He).
  exists (fatal_world d w1). split; [exact He|]. split; [discriminate|].
  split; [|split; reflexivity].
  rewrite diagnostics_fatal_world.
  change [d; fatal_record] with ([d] ++ [fatal_record]).
  rewrite app_assoc. apply last_snoc.
Qed.

Lemma fatal_failure_exits_with_EXIT_FAILURE_witness :
  ∃ w', exec (CallCalloc 8 4 (AllocFail ENOMEM)) boot_world = Exits EXIT_FAILURE w' ∧
        EXIT_FAILURE ≠ EXIT_SUCCESS ∧
        last (diagnostics w') = Some fatal_record ∧
        category fatal_record = SC_ERR_FATAL ∧
        message fatal_record = OUT_OF_MEMORY.
Proof.
  apply (fatal_failure_exits_with_EXIT_FAILURE
           (CallCalloc 8 4 (AllocFail ENOMEM)) boot_world); reflexivity.
Defined.

(** *** The gate is only read *)

Lemma keeps_stage_ret {A} (v : A) : keeps_stage (mret v).
Proof. intros w w' H. injection H as <-. reflexivity. Qed.

Lemma keeps_stage_bind {A B} (m : M A) (f : A → M B) :
  keeps_stage m → (∀ v, keeps_stage (f v)) → keeps_stage (m ≫= f).
Proof.
  intros Hm Hf w w'. unfold mbind, M_bind.
  destruct (m w) as [v w1| s w1|] eqn:E; simpl; intros H.
  - rewrite (Hf v w1 w' H). apply Hm. rewrite E. reflexivity.
  - apply Hm. rewrite E. exact H.
  - discriminate.
Qed.

Lemma keeps_stage_exit {A} s : keeps_stage (@exit A s).
Proof. intros w w' H. injection H as <-. reflexivity. Qed.

Lemma keeps_stage_gate : keeps_stage SC_ATOMIC_GET_engine_stage.
Proof. intros w w' H. injection H as <-. reflexivity. Qed.

Lemma keeps_stage_get_errno : keeps_stage get_errno.
Proof. intros w w' H. injection H as <-. reflexivity. Qed.

Lemma keeps_stage_log c fmt e s al : keeps_stage (SCLogError c fmt e s al).
Proof. intros w w' H. injection H as <-. reflexivity. Qed.

Lemma keeps_stage_malloc size r : keeps_stage (malloc size r).
Proof. intros w w'. unfold malloc. destruct r; intros [= <-]; reflexivity. Qed.

Lemma keeps_stage_calloc nm a r : keeps_stage (calloc nm a r).
Proof.
  intros w w'. unfold calloc.
  case_bool_decide; [|destruct r]; intros [= <-]; reflexivity.
Qed.

Lemma keeps_stage_realloc x size r : keeps_stage (realloc x size r).
Proof.
  intros w w'. unfold realloc. destruct x as [|q].
  - apply keeps_stage_malloc.
  - destruct (heap w !! q); [|discriminate].
    destruct (rr_zero_frees r && bool_decide (size = 0));
      [|destruct (rr_answer r)]; intros [= <-]; reflexivity.
Qed.

Lemma keeps_stage_strdup a r : keeps_stage (strdup a r).
Proof. intros w w'. unfold strdup. destruct r; intros [= <-]; reflexivity. Qed.

Lemma keeps_stage_strndup a n r : keeps_stage (strndup a n r).
Proof. intros w w'. unfold strndup. destruct r; intros [= <-]; reflexivity. Qed.

Lemma keeps_stage_free x : keeps_stage (free x).
Proof.
  intros w w'. unfold free. destruct x as [|q]; [intros [= <-]; reflexivity|].
  destruct (heap w !! q); [|discriminate]. intros [= <-]; reflexivity.
Qed.

Lemma keeps_stage_mm_malloc size al r : keeps_stage (_mm_malloc size al r).
Proof. intros w w'. unfold _mm_malloc. destruct r; intros [= <-]; reflexivity. Qed.

Lemma keeps_stage_mm_free x : keeps_stage (_mm_free x).
Proof.
  intros w w'. unfold _mm_free. destruct x as [|q]; [intros [= <-]; reflexivity|].
  destruct (heap w !! q); [|discriminate]. intros [= <-]; reflexivity.
Qed.

Lemma keeps_stage_posix_memalign p al size r :
  keeps_stage (posix_memalign p al size r).
Proof.
  intros w w'. unfold posix_memalign.
  destruct (pm_errno r), (pm_block r) as [[q junk]|]; intros [= <-];
    reflexivity.
Qed.

Lemma keeps_stage_strlcpy dst src siz : keeps_stage (strlcpy dst src siz).
Proof.
  intros w w'. unfold strlcpy. destruct dst as [|q]; [discriminate|].
  destruct (heap w !! q); [|discriminate].
  case_bool_decide; [|discriminate]. intros [= <-]; reflexivity.
Qed.

Lemma keeps_stage_store p off v : keeps_stage (store p off v).
Proof.
  intros w w'. unfold store. destruct p as [|q]; [discriminate|].
  destruct (heap w !! q); [|discriminate].
  case_bool_decide; [|discriminate]. intros [= <-]; reflexivity.
Qed.

Create HintDb stage.
#[global] Hint Resolve keeps_stage_ret keeps_stage_exit keeps_stage_gate
  keeps_stage_get_errno keeps_stage_log keeps_stage_malloc keeps_stage_calloc
  keeps_stage_realloc keeps_stage_strdup keeps_stage_strndup keeps_stage_free
  keeps_stage_mm_malloc keeps_stage_mm_free keeps_stage_posix_memalign
  keeps_stage_strlcpy keeps_stage_store : stage.

(** Walks a macro body statement by statement. *)
Ltac walk_stage :=
  repeat first
    [ apply keeps_stage_bind; [| intros ?]
    | match goal with
      | |- keeps_stage (if ?b then _ else _) => destruct b
      | |- keeps_stage (let '(_, _) := ?x in _) => destruct x
      end
    | solve [auto with stage] ].

Lemma keeps_stage_exec (c : call) : keeps_stage (exec c).
Proof.
  destruct c; unfold exec, returning, void,
    SCMalloc, SCRealloc, SCCalloc, SCStrdup, SCFree,
    NoStrndup.SCStrndup, HaveStrndup.SCStrndup,
    Win32.SCMallocAligned, Win32.SCFreeAligned,
    Posix.SCMallocAligned, Posix.SCFreeAligned; walk_stage.
Qed.

(** C7.  No macro of the facade writes [engine_stage]: whatever the call,
    the starting world and the way the call ends (by returning or by
    exiting), the stage afterwards is the stage before. *)
Theorem engine_stage_is_never_written (c : call) (w w' : world) :
  final_world (exec c w) = Some w' → engine_stage w' = engine_stage w.
Proof. apply keeps_stage_exec. Qed.

Lemma engine_stage_is_never_written_witness :
  engine_stage
    (hand_out Libc 5 (fresh_block (fun _ => "U"%byte) (size_t 4)) boot_world)
  = engine_stage boot_world.
Proof.
  apply (engine_stage_is_never_written
           (CallMalloc 4 (AllocOk 5 (fun _ => "U"%byte))) boot_world).
  reflexivity.
Defined.

(** *** Releasing *)

(** C8.  [SCFree(NULL)] does nothing in any phase: it returns, and the world
    it returns in is the world it was called in, so no block was released,
    the gate was not read, nothing was logged and the process did not
    exit. *)
Theorem SCFree_NULL_is_a_noop (w : world) :
  ∃ w', SCFree NULL w = Returns tt w' ∧
        w' = w ∧ heap w' = heap w ∧ released w' = released w ∧
        gate_reads w' = gate_reads w ∧ diagnostics w' = diagnostics w.
Proof. exists w. repeat split. Qed.

(** The same pointer given to the Windows release of the aligned pair and to
    [SCFree] leaves different traces: the pair is not interchangeable
    there. *)
Lemma Win32_SCFreeAligned_differs :
  let w := hand_out Mm 5 [x00] boot_world in
  Win32.SCFreeAligned (Ptr 5) w ≠ SCFree (Ptr 5) w.
Proof. vm_compute. discriminate. Qed.

(** C10.  Outside Windows [SCFreeAligned] is [SCFree]: on every handle and
    in every world the two macros have the same outcome, both being one call
    of [free]. *)
Theorem Posix_SCFreeAligned_is_SCFree (h : ptr) (w : world) :
  Posix.SCFreeAligned h w = SCFree h w ∧ SCFree h w = free h w.
Proof. split; reflexivity. Qed.

(** *** Aligned allocation *)

Lemma length_fresh_block junk size :
  0 <= size → Z.of_nat (length (fresh_block junk size)) = size.
Proof.
  intros H. unfold fresh_block. rewrite length_map, length_seq. lia.
Qed.

Lemma size_t_nonneg a : 0 <= size_t a.
Proof. unfold size_t. apply Z.mod_pos_bound. reflexivity. Qed.

Lemma size_t_id a : 0 <= a < SIZE_MODULUS → size_t a = a.
Proof. intros H. unfold size_t. apply Z.mod_small. exact H. Qed.

(** [posix_memalign] stores a pointer and still reports a failure. *)
Lemma Posix_SCMallocAligned_partial_failure a b st err p junk w :
  st ≠ 0 →
  let w0 := leave_errno err w in
  let w1 := give_back Libc p (hand_out Libc p (fresh_block junk (size_t a)) w0) in
  Posix.SCMallocAligned a b (mkMemalign st err (Some (p, junk))) w =
    if bool_decide (engine_stage w = SURICATA_INIT)
    then Exits EXIT_FAILURE (fatal_world (aligned_record a b w0) w1)
    else Returns NULL (quiet_world w1).
Proof.
  intros Hst w0 w1. unfold_macros. unfold posix_memalign, free. simpl.
  rewrite (bool_decide_true _ Hst). simpl.
  rewrite lookup_insert_eq. simpl.
  subst w1 w0. destruct err; simpl;
    destruct (bool_decide (engine_stage w = SURICATA_INIT)); reflexivity.
Qed.

(** C2.  When [posix_memalign] reports a failure through its status and has
    nevertheless stored a pointer, [SCMallocAligned] releases that block
    first: the release is the first thing recorded after the allocation,
    before the gate is read and before any diagnostic, and the heap the call
    ends in is the heap it started in.  Outside initialisation the macro
    then returns [NULL] without a diagnostic. *)
Theorem failed_posix_memalign_block_is_released
    (a b st : Z) (err : option Z) (p : positive) (junk : nat → byte)
    (w : world) :
  st ≠ 0 →
  heap w !! p = None →
  ∃ w' logs,
    final_world (Posix.SCMallocAligned a b (mkMemalign st err (Some (p, junk))) w)
      = Some w' ∧
    trace w' = trace w ++ [EvAlloc Libc p (size_t a); EvRelease Libc p;
                           EvGateRead (engine_stage w)] ++ map EvLog logs ∧
    heap w' = heap w ∧
    (engine_stage w ≠ SURICATA_INIT →
       Posix.SCMallocAligned a b (mkMemalign st err (Some (p, junk))) w
         = Returns NULL w' ∧ logs = []).
Proof.
  intros Hst Hfresh.
  rewrite (Posix_SCMallocAligned_partial_failure a b st err p junk w Hst).
  assert (Ht : trace (leave_errno err w) = trace w) by (destruct err; reflexivity).
  assert (Hh : heap (leave_errno err w) = heap w) by (destruct err; reflexivity).
  assert (Hg : engine_stage (leave_errno err w) = engine_stage w)
    by (destruct err; reflexivity).
  destruct (bool_decide (engine_stage w = SURICATA_INIT)) eqn:Hs.
  - eexists _, [aligned_record a b (leave_errno err w); fatal_record].
    split; [reflexivity|].
    split; [|split].
    + simpl. rewrite (length_fresh_block _ _ (size_t_nonneg a)), Ht, Hg.
      rewrite <- !app_assoc. reflexivity.
    + simpl. rewrite Hh, delete_insert_eq. apply delete_id. exact Hfresh.
    + intros Hne. apply bool_decide_eq_true in Hs. contradiction.
  - eexists _, []. split; [reflexivity|]. split; [|split].
    + simpl. rewrite (length_fresh_block _ _ (size_t_nonneg a)), Ht, Hg.
      rewrite <- !app_assoc. reflexivity.
    + simpl. rewrite Hh, delete_insert_eq. apply delete_id. exact Hfresh.
    + intros _. split; reflexivity.
Qed.

Lemma failed_posix_memalign_block_is_released_witness :
  ∃ w' logs,
    final_world (Posix.SCMallocAligned 64 16
                   (mkMemalign ENOMEM (Some ENOMEM)
                      (Some (7%positive, fun _ => "U"%byte)))
                   run_world) = Some w' ∧
    trace w' = trace run_world ++ [EvAlloc Libc 7 (size_t 64); EvRelease Libc 7;
                                   EvGateRead (engine_stage run_world)]
                 ++ map EvLog logs ∧
    heap w' = heap run_world ∧
    (engine_stage run_world ≠ SURICATA_INIT →
       Posix.SCMallocAligned 64 16
         (mkMemalign ENOMEM (Some ENOMEM) (Some (7%positive, fun _ => "U"%byte)))
         run_world
         = Returns NULL w' ∧ logs = []).
Proof.
  apply (failed_posix_memalign_block_is_released 64 16 ENOMEM (Some ENOMEM) 7
           (fun _ => "U"%byte) run_world).
  - discriminate.
  - reflexivity.
Defined.

(** *** The [SCStrndup] fallback *)

Lemma strlcpy_copy_spec (a : list byte) (n : nat) :
  strlcpy_copy a n = take n (c_str a) ++ [x00].
Proof.
  revert a. induction n as [|n IH]; intros a; simpl.
  - reflexivity.
  - destruct a as [|c a']; simpl; [reflexivity|].
    case_bool_decide; simpl; [reflexivity|].
    rewrite IH. reflexivity.
Qed.

Lemma strlcpy_image_succ (a : list byte) (b : Z) :
  0 <= b → strlcpy_image a (b + 1) = take (Z.to_nat b) (c_str a) ++ [x00].
Proof.
  intros Hb. unfold strlcpy_image.
  rewrite bool_decide_false by lia.
  replace (b + 1 - 1) with b by lia. apply strlcpy_copy_spec.
Qed.

Lemma NoStrndup_SCStrndup_success a b p junk w :
  0 <= b < SIZE_MAX →
  ∃ w', NoStrndup.SCStrndup a b (AllocOk p junk) w = Returns (Ptr p) w' ∧
        heap w' = <[p := strndup_block a b junk]> (heap w) ∧
        trace w' = trace w ++ [EvAlloc Libc p (b + 1)].
Proof.
  intros Hb. unfold SIZE_MAX in Hb.
  unfold_macros. unfold malloc, strlcpy, store.
  rewrite (size_t_id b) by lia. rewrite (size_t_id (b + 1)) by lia.
  simpl. rewrite lookup_insert_eq.
  assert (Hlen : length (fresh_block junk (b + 1)) = S (Z.to_nat b)).
  { unfold fresh_block. rewrite length_map, length_seq. lia. }
  assert (Hout : (length (strlcpy_image a (b + 1)) ≤ S (Z.to_nat b))%nat).
  { rewrite strlcpy_image_succ by lia. rewrite length_app, length_take. simpl. lia. }
  rewrite bool_decide_true by (rewrite Hlen; exact Hout).
  simpl. rewrite lookup_insert_eq.
  rewrite bool_decide_true.
  2:{ rewrite length_app, length_drop, Hlen. lia. }
  eexists. split; [reflexivity|]. simpl. split.
  - rewrite !insert_insert_eq. reflexivity.
  - rewrite Hlen. f_equal. f_equal. f_equal. lia.
Qed.

Lemma length_strndup_block a b junk :
  0 <= b → length (strndup_block a b junk) = S (Z.to_nat b).
Proof.
  intros Hb. unfold strndup_block.
  rewrite length_insert, length_app, length_drop, strlcpy_image_succ by lia.
  unfold fresh_block. rewrite length_map, length_seq, length_app, length_take.
  simpl. lia.
Qed.

Lemma strndup_block_terminator a b junk :
  0 <= b → strndup_block a b junk !! Z.to_nat b = Some x00.
Proof.
  intros Hb. unfold strndup_block. apply list_lookup_insert_eq.
  rewrite length_app, length_drop, strlcpy_image_succ by lia.
  unfold fresh_block. rewrite length_map, length_seq, length_app, length_take.
  simpl. lia.
Qed.

(** A request no longer than the string: the prefix and its terminator fill
    the block. *)
Lemma strndup_block_short a b junk :
  0 <= b <= strlen a →
  strndup_block a b junk = take (Z.to_nat b) (c_str a) ++ [x00].
Proof.
  unfold strlen. intros Hb. unfold strndup_block.
  rewrite strlcpy_image_succ by lia.
  assert (Ht : length (take (Z.to_nat b) (c_str a)) = Z.to_nat b).
  { apply length_take_le. lia. }
  rewrite drop_ge.
  2:{ unfold fresh_block. rewrite length_map, length_seq, length_app, Ht.
      simpl. lia. }
  rewrite app_nil_r, insert_app_r_alt by lia.
  rewrite Ht, Nat.sub_diag. reflexivity.
Qed.


(** C4.  For a string [a] and a length [b] not above [strlen a], the
    fallback [SCStrndup], when its [malloc] succeeds with a fresh block,
    returns that block; it holds [b + 1] bytes: the first [b] bytes of the
    string followed by the terminator at position [b].  No other block is
    touched. *)
Theorem SCStrndup_fallback_copies_prefix
    (a : list byte) (b : Z) (p : positive) (junk : nat → byte) (w : world) :
  strlen a < SIZE_MAX →
  0 <= b <= strlen a →
  heap w !! p = None →
  ∃ w' blk,
    NoStrndup.SCStrndup a b (AllocOk p junk) w = Returns (Ptr p) w' ∧
    heap w' !! p = Some blk ∧
    blk = take (Z.to_nat b) (c_str a) ++ [x00] ∧
    Z.of_nat (length blk) = b + 1 ∧
    blk !! Z.to_nat b = Some x00 ∧
    ∀ q, q ≠ p → heap w' !! q = heap w !! q.
Proof.
  intros Ha Hb Hfresh.
  destruct (NoStrndup_SCStrndup_success a b p junk w) as (w' & Hrun & Hheap & _);
    [lia|].
  exists w', (strndup_block a b junk). split; [exact Hrun|].
  split; [rewrite Hheap; apply lookup_insert_eq|].
  split; [apply strndup_block_short; exact Hb|].
  split; [rewrite length_strndup_block by lia; lia|].
  split; [apply strndup_block_terminator; lia|].
  intros q Hq. rewrite Hheap. apply lookup_insert_ne. congruence.
Qed.

Lemma SCStrndup_fallback_copies_prefix_witness :
  ∃ w' blk,
    NoStrndup.SCStrndup hello 3 (AllocOk 5 (fun _ => "U"%byte)) run_world
      = Returns (Ptr 5) w' ∧
    heap w' !! 5%positive = Some blk ∧
    blk = ["h"%byte; "e"%byte; "l"%byte; x00] ∧
    Z.of_nat (length blk) = 3 + 1 ∧
    blk !! Z.to_nat 3 = Some x00 ∧
    ∀ q, q ≠ 5%positive → heap w' !! q = heap run_world !! q.
Proof.
  apply (SCStrndup_fallback_copies_prefix hello 3 5 (fun _ => "U"%byte) run_world).
  - reflexivity.
  - split; [lia | vm_compute; discriminate].
  - reflexivity.
Defined.

(** A request of [SIZE_MAX] bytes makes [_len + 1] wrap to zero: the store
    of the terminator then falls outside the empty block, so such a call
    never returns a pointer. *)
Lemma NoStrndup_SCStrndup_SIZE_MAX a p junk w :
  NoStrndup.SCStrndup a SIZE_MAX (AllocOk p junk) w = Undefined.
Proof.
  unfold_macros. unfold malloc, strlcpy, store.
  change (size_t SIZE_MAX) with SIZE_MAX.
  change (size_t (SIZE_MAX + 1)) with 0.
  simpl. rewrite lookup_insert_eq. simpl. rewrite lookup_insert_eq.
  reflexivity.
Qed.

Lemma NoStrndup_SCStrndup_failed a b e w p w' :
  NoStrndup.SCStrndup a b (AllocFail e) w ≠ Returns (Ptr p) w'.
Proof.
  unfold_macros. unfold malloc. simpl.
  destruct (bool_decide (engine_stage w = SURICATA_INIT)); simpl; discriminate.
Qed.

(** Below [SIZE_MAX] the terminator is where it is asked for: a fallback
    [SCStrndup] that returns a pointer returns a block of [b + 1] bytes
    whose byte at position [b] is the terminator, also for [b] above
    [strlen a]; and it does return one whenever [malloc] hands out a block
    and [b + 1] fits a [size_t]. *)
Theorem SCStrndup_fallback_terminates_at_n
    (a : list byte) (b : Z) (r : alloc_reply) (w : world) :
  0 <= b <= SIZE_MAX →
  (∀ p w', NoStrndup.SCStrndup a b r w = Returns (Ptr p) w' →
     ∃ blk, heap w' !! p = Some blk ∧
            Z.of_nat (length blk) = b + 1 ∧
            blk !! Z.to_nat b = Some x00)
  ∧ (b < SIZE_MAX → ∀ p junk, r = AllocOk p junk →
       ∃ w', NoStrndup.SCStrndup a b r w = Returns (Ptr p) w').
Proof.
  intros Hb. split.
  - intros p w' Hrun. destruct r as [e|p0 junk].
    + exfalso. exact (NoStrndup_SCStrndup_failed a b e w p w' Hrun).
    + destruct (decide (b = SIZE_MAX)) as [->|Hne].
      * rewrite NoStrndup_SCStrndup_SIZE_MAX in Hrun. discriminate.
      * destruct (NoStrndup_SCStrndup_success a b p0 junk w)
          as (w1 & Hrun1 & Hheap & _); [lia|].
        rewrite Hrun1 in Hrun. injection Hrun as <- <-.
        exists (strndup_block a b junk).
        split; [rewrite Hheap; apply lookup_insert_eq|].
        split; [rewrite length_strndup_block by lia; lia|].
        apply strndup_block_terminator. lia.
  - intros Hlt p junk ->.
    destruct (NoStrndup_SCStrndup_success a b p junk w) as (w1 & Hrun1 & _);
      [lia|].
    exists w1. exact Hrun1.
Qed.

Lemma SCStrndup_fallback_terminates_at_n_witness :
  ∃ w' blk,
    NoStrndup.SCStrndup hello 8 (AllocOk 5 (fun _ => "U"%byte)) run_world
      = Returns (Ptr 5) w' ∧
    heap w' !! 5%positive = Some blk ∧
    Z.of_nat (length blk) = 8 + 1 ∧
    blk !! Z.to_nat 8 = Some x00.
Proof.
  assert (Hb : 0 <= 8 <= SIZE_MAX) by (vm_compute; split; discriminate).
  destruct (SCStrndup_fallback_terminates_at_n
              hello 8 (AllocOk 5 (fun _ => "U"%byte)) run_world Hb)
    as [Hpost Hret].
  destruct (Hret eq_refl 5%positive (fun _ => "U"%byte) eq_refl) as [w' Hrun].
  destruct (Hpost 5%positive w' Hrun) as (blk & Hblk).
  exists w', blk. split; [exact Hrun | exact Hblk].
Defined.

(** C5.  The fallback [SCStrndup] asked for [SIZE_MAX] bytes: [_len + 1]
    wraps to zero, so [malloc] is asked for no byte and [strlcpy], given a
    size of zero, copies nothing and terminates nothing; the block is empty
    when the macro stores the terminator at [ptrmem + _len], outside of it.
    No block with a terminator at position [SIZE_MAX] comes out of the call,
    whereas the [strndup] body, on the same request, returns the string and
    its terminator. *)
Theorem SCStrndup_fallback_SIZE_MAX_unterminated
    (a : list byte) (p : positive) (junk : nat → byte) (w : world) :
  size_t (size_t SIZE_MAX + 1) = 0 ∧
  (∃ w1, (ptrmem ← malloc (size_t (size_t SIZE_MAX + 1)) (AllocOk p junk);
          strlcpy ptrmem a (size_t (size_t SIZE_MAX + 1))) w
           = Returns (strlen a) w1 ∧
         heap w1 !! p = Some [] ∧
         store (Ptr p) (size_t SIZE_MAX) x00 w1 = Undefined) ∧
  NoStrndup.SCStrndup a SIZE_MAX (AllocOk p junk) w = Undefined ∧
  (∃ w2, HaveStrndup.SCStrndup a SIZE_MAX (AllocOk p junk) w = Returns (Ptr p) w2 ∧
         heap w2 !! p = Some (take (Z.to_nat SIZE_MAX) (c_str a) ++ [x00])).
Proof.
  split; [reflexivity|]. split; [|split].
  - change (size_t (size_t SIZE_MAX + 1)) with 0.
    unfold mbind, M_bind, malloc, strlcpy, store. simpl.
    rewrite lookup_insert_eq. simpl.
    eexists. split; [reflexivity|]. simpl. rewrite !lookup_insert_eq.
    split; reflexivity.
  - apply NoStrndup_SCStrndup_SIZE_MAX.
  - eexists. split; [reflexivity|]. simpl. apply lookup_insert_eq.
Qed.




(** The block of the previous call, byte by byte: the two bytes between the
    copied string and the final terminator are the allocator's. *)
Example SCStrndup_fallback_hello_8 :
  ∃ w', NoStrndup.SCStrndup hello 8 (AllocOk 5 (fun _ => "U"%byte)) run_world
          = Returns (Ptr 5) w' ∧
        heap w' !! 5%positive =
          Some ["h"%byte; "e"%byte; "l"%byte; "l"%byte; "o"%byte; x00;
                "U"%byte; "U"%byte; x00].
Proof. eexists. split; reflexivity. Qed.

(** *** The byte count of the diagnostic *)

(** [strdup] asks the allocator for the string and its terminator. *)
Lemma strdup_allocates_request a p junk w :
  ∃ w', strdup a (AllocOk p junk) w = Returns (Ptr p) w' ∧
        trace w' = trace w ++ [EvAlloc Libc p (strdup_request a)].
Proof.
  eexists. split; [reflexivity|]. simpl.
  unfold strdup_request, strlen. rewrite length_app. simpl.
  do 3 f_equal. lia.
Qed.

(** The fallback [SCStrndup] reports what it asked [malloc] for: the
    length plus the terminator. *)
Lemma NoStrndup_SCStrndup_reports_request a b e w :
  engine_stage w = SURICATA_INIT →
  ∃ w' d, NoStrndup.SCStrndup a b (AllocFail e) w = Exits EXIT_FAILURE w' ∧
          diagnostics w' = diagnostics w ++ [d; fatal_record] ∧
          bytes d = Some (size_t (size_t b + 1)).
Proof.
  intros Hs. unfold_macros. unfold malloc. simpl.
  rewrite (bool_decide_true _ Hs). simpl.
  eexists _, _. split; [reflexivity|]. split.
  - unfold diagnostics. simpl. rewrite !omap_app. simpl.
    rewrite app_nil_r, <- app_assoc. reflexivity.
  - simpl. unfold uintmax_t, size_t. rewrite Z.mod_mod; [reflexivity|].
    discriminate.
Qed.

(** C6.  [SCStrdup] on the string abc, failing while the engine is
    initialising: [strdup] had asked for 4 bytes (the three characters and
    the terminator), the diagnostic reports 3, the value of [strlen]. *)
Theorem SCStrdup_reports_strlen :
  ∃ w' d, SCStrdup abc (AllocFail ENOMEM) boot_world = Exits EXIT_FAILURE w' ∧
          diagnostics w' = [d; fatal_record] ∧
          category d = SC_ERR_MEM_ALLOC ∧
          bytes d = Some 3 ∧
          strdup_request abc = 4.
Proof. eexists _, _. repeat split. Qed.

(** [SCCalloc] has the same defect: eight elements of four bytes are 32
    bytes asked of [calloc], and the diagnostic reports the element size. *)
Example SCCalloc_reports_element_size :
  ∃ w' d, SCCalloc 8 4 (AllocFail ENOMEM) boot_world = Exits EXIT_FAILURE w' ∧
          diagnostics w' = [d; fatal_record] ∧
          bytes d = Some 4.
Proof. eexists _, _. repeat split. Qed.

(** ** Beyond the claims: every path through the macros *)

Lemma gate_reads_emit_gate v w :
  gate_reads (emit (EvGateRead v) w) = gate_reads w ++ [v].
Proof. unfold gate_reads, emit. simpl. rewrite omap_app. reflexivity. Qed.

Ltac unfold_primitives :=
  unfold primitive_fails, malloc, calloc, realloc, strdup, strndup, free,
    _mm_malloc, _mm_free, posix_memalign, leave_errno, strlcpy, store,
    returns_null, memalign_failed.

(** Splits on the answer of the primitive and on every test the macro
    makes, leaving one goal per path through the body. *)
Ltac split_reply :=
  repeat match goal with
         | r : alloc_reply |- _ => destruct r as [?e|?p ?junk]
         | r : realloc_reply |- _ => destruct r as [[] ?r]
         | r : memalign_reply |- _ => destruct r as [?st [?e|] [[?p ?junk]|]]
         | x : ptr |- _ => destruct x as [|?q]
         end.

Ltac split_paths :=
  repeat first
    [ progress simpl
    | rewrite lookup_insert_eq
    | match goal with
      | |- context [bool_decide ?P] => destruct (bool_decide P) eqn:?
      | |- context [heap ?w !! ?q] => destruct (heap w !! q) eqn:?
      end ].

Ltac all_paths c :=
  destruct c; split_reply; unfold_macros; unfold_primitives; split_paths.

(** Reads the gate reads, diagnostics and releases off an explicit world. *)
Ltac projections :=
  unfold gate_reads, diagnostics, released, hand_out, give_back, emit,
    set_heap, set_errno; simpl; rewrite ?omap_app; simpl;
  rewrite ?app_nil_r.

(** X1.  A macro whose primitive has not failed (every releasing macro, and
    every allocating macro that got its block) never exits, and when it
    returns it has neither read [engine_stage] nor emitted a diagnostic. *)
Theorem no_gate_read_without_failure (c : call) (w : world) :
  primitive_fails c w = false →
  (∀ s w', exec c w ≠ Exits s w')
  ∧ (∀ v w', exec c w = Returns v w' →
       gate_reads w' = gate_reads w ∧ diagnostics w' = diagnostics w).
Proof.
  intros Hf. split; [intros s w' H | intros v w' H]; revert Hf H.
  - all_paths c; intros; simplify_eq.
  - all_paths c; intros; simplify_eq; split; projections; reflexivity.
Qed.

Lemma no_gate_read_without_failure_witness :
  gate_reads (hand_out Libc 5 (fresh_block (fun _ => "U"%byte) (size_t 4)) boot_world)
    = gate_reads boot_world
  ∧ diagnostics (hand_out Libc 5 (fresh_block (fun _ => "U"%byte) (size_t 4)) boot_world)
    = diagnostics boot_world.
Proof.
  apply (proj2 (no_gate_read_without_failure
                  (CallMalloc 4 (AllocOk 5 (fun _ => "U"%byte))) boot_world eq_refl)
           (Some (Ptr 5))).
  reflexivity.
Defined.

(** X2.  After a failed primitive the gate is read exactly once, and the
    value read is the stage of the world the macro was called in, whether the
    macro then exits or returns. *)
Theorem gate_read_once_on_failure (c : call) (w w' : world) :
  primitive_fails c w = true →
  final_world (exec c w) = Some w' →
  gate_reads w' = gate_reads w ++ [engine_stage w].
Proof.
  intros Hf H; revert Hf H.
  all_paths c; intros; simplify_eq; projections; reflexivity.
Qed.

Lemma gate_read_once_on_failure_witness :
  ∃ w', final_world (exec (CallStrdup abc (AllocFail ENOMEM)) run_world) = Some w'
        ∧ gate_reads w' = gate_reads run_world ++ [engine_stage run_world].
Proof.
  eexists. split; [reflexivity|].
  apply (gate_read_once_on_failure (CallStrdup abc (AllocFail ENOMEM)) run_world);
    reflexivity.
Defined.

(** X3.  After a call whose primitive answered with what the macro takes
    for a failure, the heap is the heap before the call, provided the block
    [posix_memalign] may have stored was not live before: nothing is leaked,
    and the block given to a failed [SCRealloc] is still live with its
    contents.  The one exception is a [realloc(p, 0)] answered by releasing
    [p]: then [p] is gone from the heap, and nothing else has changed. *)
Theorem heap_after_failed_allocation (c : call) (w w' : world) :
  primitive_fails c w = true →
  (∀ p, stored_block c = Some p → heap w !! p = None) →
  final_world (exec c w) = Some w' →
  heap w' = match released_on_zero c with
            | Some q => delete q (heap w)
            | None => heap w
            end.
Proof.
  intros Hf Hfresh H; revert Hf H.
  all_paths c; intros; simplify_eq; try reflexivity.
  all: simpl; rewrite delete_insert_eq; apply delete_id; apply Hfresh; reflexivity.
Qed.

Lemma heap_after_failed_allocation_witness :
  (∃ w', exec (CallRealloc (Ptr 5) 64 (mkRealloc true (AllocFail ENOMEM))) live_world
           = Returns (Some NULL) w'
         ∧ heap w' = heap live_world
         ∧ heap w' !! 5%positive = Some [x00])
  ∧ (∃ w', exec (CallRealloc (Ptr 5) 0 (mkRealloc true (AllocFail ENOMEM))) live_world
             = Returns (Some NULL) w'
           ∧ heap w' = delete 5%positive (heap live_world)
           ∧ heap w' !! 5%positive = None).
Proof.
  split.
  - eexists. split; [reflexivity|]. split; [|reflexivity].
    apply (heap_after_failed_allocation
             (CallRealloc (Ptr 5) 64 (mkRealloc true (AllocFail ENOMEM))) live_world).
    + reflexivity.
    + discriminate.
    + reflexivity.
  - eexists. split; [reflexivity|]. split; [|reflexivity].
    apply (heap_after_failed_allocation
             (CallRealloc (Ptr 5) 0 (mkRealloc true (AllocFail ENOMEM))) live_world).
    + reflexivity.
    + discriminate.
    + reflexivity.
Defined.

(** X4.  A pointer returned by an allocating macro that is not [NULL] is
    the base of a live block, and the primitive had not failed: a failure
    is never passed off as a success, and the pointer nulled after the
    release in [Posix.SCMallocAligned] is never handed back. *)
Theorem returned_pointer_is_live (c : call) (w w' : world) (p : positive) :
  exec c w = Returns (Some (Ptr p)) w' →
  primitive_fails c w = false ∧ is_Some (heap w' !! p).
Proof.
  rewrite <- elem_of_dom. intros H; revert H.
  all_paths c; intros; simplify_eq; split; try reflexivity;
    apply elem_of_dom; simpl; rewrite ?lookup_insert_eq; eauto.
Qed.

Lemma returned_pointer_is_live_witness :
  primitive_fails
    (CallMallocAligned 64 16
       (mkMemalign 0 None (Some (7%positive, fun _ => "U"%byte))))
    run_world = false
  ∧ is_Some (heap (hand_out Libc 7 (fresh_block (fun _ => "U"%byte) (size_t 64))
                     run_world) !! 7%positive).
Proof.
  apply (returned_pointer_is_live
           (CallMallocAligned 64 16
              (mkMemalign 0 None (Some (7%positive, fun _ => "U"%byte)))) run_world).
  reflexivity.
Defined.

Ltac stage_clash :=
  match goal with
  | H : bool_decide (engine_stage _ = SURICATA_INIT) = false |- _ =>
      apply bool_decide_eq_false in H; contradiction
  end.

(** X5.  While the engine initialises, a caller never sees [NULL]: whatever
    an allocating macro returns when [engine_stage] is [SURICATA_INIT] is
    the base of a live block. *)
Theorem no_NULL_while_initialising (c : call) (w w' : world) (x : ptr) :
  engine_stage w = SURICATA_INIT →
  exec c w = Returns (Some x) w' →
  ∃ p, x = Ptr p ∧ p ∈ dom (heap w').
Proof.
  intros Hs H; revert H. destruct x as [|p].
  - all_paths c; intros; simplify_eq; stage_clash.
  - intros H. exists p. split; [reflexivity|]. revert H.
    all_paths c; intros; simplify_eq;
      apply elem_of_dom; simpl; rewrite ?lookup_insert_eq; eauto.
Qed.

Lemma no_NULL_while_initialising_witness :
  ∃ p, Ptr 5 = Ptr p ∧
       p ∈ dom (heap (hand_out Libc 5 (replicate (Z.to_nat (size_t 8 * size_t 4)) x00)
                        boot_world)).
Proof.
  apply (no_NULL_while_initialising
           (CallCalloc 8 4 (AllocOk 5 (fun _ => "U"%byte))) boot_world);
    reflexivity.
Defined.

(** X6.  The only way a macro of the facade ends the process is the fatal
    path: if a call exits, the macro is an allocating one, the engine was
    initialising, the status is [EXIT_FAILURE], and the last two diagnostics
    are an allocation error and the fatal record. *)
Theorem exit_is_the_fatal_path (c : call) (w w' : world) (s : Z) :
  exec c w = Exits s w' →
  s = EXIT_FAILURE ∧
  engine_stage w = SURICATA_INIT ∧
  match c with
  | CallFree _ | CallFreeAlignedWin32 _ | CallFreeAligned _ => False
  | _ => True
  end ∧
  ∃ d, category d = SC_ERR_MEM_ALLOC ∧
       diagnostics w' = diagnostics w ++ [d; fatal_record].
Proof.
  intros H; revert H.
  all_paths c; intros; simplify_eq;
    (split; [reflexivity|]);
    (split; [eapply bool_decide_eq_true; eassumption|]);
    (split; [exact I|]);
    eexists; (split; [|projections; rewrite <- ?app_assoc; reflexivity]);
    reflexivity.
Qed.

Lemma exit_is_the_fatal_path_witness :
  EXIT_FAILURE = EXIT_FAILURE ∧
  engine_stage boot_world = SURICATA_INIT ∧
  True ∧
  ∃ d, category d = SC_ERR_MEM_ALLOC ∧
       diagnostics
         (fatal_world
            (mkDiag SC_ERR_MEM_ALLOC
               "SCMalloc failed: %s, while trying to allocate %ju bytes"
               (Some ENOMEM) (Some (uintmax_t 16)) None)
            (set_errno ENOMEM boot_world))
       = diagnostics boot_world ++ [d; fatal_record].
Proof.
  apply (exit_is_the_fatal_path (CallMalloc 16 (AllocFail ENOMEM)) boot_world).
  reflexivity.
Defined.

(** *** The two bodies of [SCStrndup] *)

Lemma c_str_prefix_nul (a : list byte) (n : nat) (k : list byte) :
  c_str (take n (c_str a) ++ x00 :: k) = take n (c_str a).
Proof.
  revert n. induction a as [|c a' IH]; intros n; simpl.
  - rewrite take_nil. reflexivity.
  - case_bool_decide as Hc; simpl.
    + rewrite take_nil. reflexivity.
    + destruct n as [|n']; simpl; [reflexivity|].
      rewrite (bool_decide_false _ Hc), IH. reflexivity.
Qed.

(** The fallback block starts with the prefix and a terminator, whatever
    follows. *)
Lemma strndup_block_shape a b junk :
  0 <= b →
  ∃ rest, strndup_block a b junk = take (Z.to_nat b) (c_str a) ++ x00 :: rest.
Proof.
  intros Hb. unfold strndup_block. rewrite strlcpy_image_succ by lia.
  rewrite <- app_assoc.
  rewrite insert_app_r_alt by (rewrite length_take; lia).
  simpl.
  destruct (Z.to_nat b - length (take (Z.to_nat b) (c_str a)))%nat;
    simpl; eauto.
Qed.

Lemma NoStrndup_SCStrndup_world a b p junk w :
  0 <= b < SIZE_MAX →
  NoStrndup.SCStrndup a b (AllocOk p junk) w =
    Returns (Ptr p)
      (mkWorld (engine_stage w) (errno w)
         (<[p := strndup_block a b junk]> (heap w))
         (trace w ++ [EvAlloc Libc p (b + 1)])).
Proof.
  intros Hb. unfold SIZE_MAX in Hb.
  unfold_macros. unfold malloc, strlcpy, store.
  rewrite (size_t_id b) by lia. rewrite (size_t_id (b + 1)) by lia.
  simpl. rewrite lookup_insert_eq.
  assert (Hlen : length (fresh_block junk (b + 1)) = S (Z.to_nat b)).
  { unfold fresh_block. rewrite length_map, length_seq. lia. }
  assert (Hout : (length (strlcpy_image a (b + 1)) ≤ S (Z.to_nat b))%nat).
  { rewrite strlcpy_image_succ by lia. rewrite length_app, length_take. simpl. lia. }
  rewrite bool_decide_true by (rewrite Hlen; exact Hout).
  simpl. rewrite lookup_insert_eq.
  rewrite bool_decide_true.
  2:{ rewrite length_app, length_drop, Hlen. lia. }
  unfold set_heap. simpl. rewrite !insert_insert_eq, Hlen.
  replace (Z.of_nat (S (Z.to_nat b))) with (b + 1) by lia. reflexivity.
Qed.

Lemma HaveStrndup_SCStrndup_world a b p junk w :
  HaveStrndup.SCStrndup a b (AllocOk p junk) w =
    Returns (Ptr p)
      (hand_out Libc p (take (Z.to_nat (size_t b)) (c_str a) ++ [x00]) w).
Proof. reflexivity. Qed.

(** X7.  Read as C strings, the blocks returned by the two bodies of
    [SCStrndup] are the same for every length [b] below [SIZE_MAX], also
    above [strlen a]: both hold the first [b] bytes of the string, or all of
    it when it is shorter. *)
Theorem SCStrndup_bodies_hold_same_string
    (a : list byte) (b : Z) (p : positive) (junk : nat → byte) (w : world) :
  0 <= b < SIZE_MAX →
  ∃ w1 w2 blk1 blk2,
    NoStrndup.SCStrndup a b (AllocOk p junk) w = Returns (Ptr p) w1 ∧
    HaveStrndup.SCStrndup a b (AllocOk p junk) w = Returns (Ptr p) w2 ∧
    heap w1 !! p = Some blk1 ∧ heap w2 !! p = Some blk2 ∧
    c_str blk1 = take (Z.to_nat b) (c_str a) ∧
    c_str blk2 = take (Z.to_nat b) (c_str a).
Proof.
  intros Hb.
  destruct (strndup_block_shape a b junk) as [rest Hshape]; [lia|].
  eexists _, _, _, _.
  split; [apply NoStrndup_SCStrndup_world; exact Hb|].
  split; [apply HaveStrndup_SCStrndup_world|].
  split; [simpl; apply lookup_insert_eq|].
  split; [simpl; apply lookup_insert_eq|].
  split.
  - rewrite Hshape. apply c_str_prefix_nul.
  - rewrite size_t_id by (unfold SIZE_MAX in Hb; lia). apply c_str_prefix_nul.
Qed.

Lemma SCStrndup_bodies_hold_same_string_witness :
  ∃ w1 w2 blk1 blk2,
    NoStrndup.SCStrndup hello 8 (AllocOk 5 (fun _ => "U"%byte)) run_world
      = Returns (Ptr 5) w1 ∧
    HaveStrndup.SCStrndup hello 8 (AllocOk 5 (fun _ => "U"%byte)) run_world
      = Returns (Ptr 5) w2 ∧
    heap w1 !! 5%positive = Some blk1 ∧ heap w2 !! 5%positive = Some blk2 ∧
    c_str blk1 = hello ∧ c_str blk2 = hello.
Proof.
  apply (SCStrndup_bodies_hold_same_string hello 8 5 (fun _ => "U"%byte) run_world).
  vm_compute. split; [discriminate | reflexivity].
Defined.

(** X8.  For a length within the string the two bodies of [SCStrndup] are
    interchangeable: given the same block by the allocator they end in the
    same world with the same pointer. *)
Theorem SCStrndup_bodies_agree_within_string
    (a : list byte) (b : Z) (p : positive) (junk : nat → byte) (w : world) :
  strlen a < SIZE_MAX →
  0 <= b <= strlen a →
  NoStrndup.SCStrndup a b (AllocOk p junk) w
    = HaveStrndup.SCStrndup a b (AllocOk p junk) w.
Proof.
  intros Ha Hb.
  rewrite NoStrndup_SCStrndup_world by lia.
  rewrite HaveStrndup_SCStrndup_world.
  rewrite strndup_block_short by exact Hb.
  rewrite size_t_id by (unfold SIZE_MAX in Ha; lia).
  unfold hand_out, emit, set_heap. simpl.
  rewrite length_app, length_take_le by (unfold strlen in Hb; lia).
  simpl. replace (Z.of_nat (Z.to_nat b + 1)) with (b + 1) by lia. reflexivity.
Qed.

Lemma SCStrndup_bodies_agree_within_string_witness :
  NoStrndup.SCStrndup hello 3 (AllocOk 5 (fun _ => "U"%byte)) run_world
    = HaveStrndup.SCStrndup hello 3 (AllocOk 5 (fun _ => "U"%byte)) run_world.
Proof.
  apply (SCStrndup_bodies_agree_within_string hello 3 5 (fun _ => "U"%byte) run_world).
  - reflexivity.
  - split; [lia | vm_compute; discriminate].
Defined.

(** X9.  A length that converts to [SIZE_MAX] (for instance -1) is where
    the bodies part: in the fallback [_len + 1] wraps to zero, [malloc(0)]
    hands out an empty block and the store of the terminator at [_len]
    falls outside it, while the [strndup] body returns its copy. *)
Theorem SCStrndup_fallback_wraps_at_SIZE_MAX
    (a : list byte) (b : Z) (p : positive) (junk : nat → byte) (w : world) :
  size_t b = SIZE_MAX →
  NoStrndup.SCStrndup a b (AllocOk p junk) w = Undefined
  ∧ ∃ w', HaveStrndup.SCStrndup a b (AllocOk p junk) w = Returns (Ptr p) w'.
Proof.
  intros Hb. split.
  - unfold_macros. unfold malloc, strlcpy, store. rewrite Hb.
    change (size_t (SIZE_MAX + 1)) with 0.
    simpl. rewrite lookup_insert_eq. simpl. rewrite lookup_insert_eq.
    reflexivity.
  - eexists. apply HaveStrndup_SCStrndup_world.
Qed.

Lemma SCStrndup_fallback_wraps_at_SIZE_MAX_witness :
  NoStrndup.SCStrndup hello (-1) (AllocOk 5 (fun _ => "U"%byte)) run_world
    = Undefined
  ∧ ∃ w', HaveStrndup.SCStrndup hello (-1) (AllocOk 5 (fun _ => "U"%byte)) run_world
            = Returns (Ptr 5) w'.
Proof.
  apply (SCStrndup_fallback_wraps_at_SIZE_MAX hello (-1) 5 (fun _ => "U"%byte)
           run_world).
  reflexivity.
Defined.

(** *** Aligned allocation, continued *)

(** X10.  The status [posix_memalign] returns is only tested against zero:
    two failing answers that differ in nothing but the status give the same
    outcome, and the error described by the diagnostic is [errno] as the
    call left it (what [posix_memalign] wrote there, or the value from
    before the call when it wrote nothing), never the status. *)
Theorem posix_memalign_status_is_not_reported
    (a b st1 st2 : Z) (err : option Z)
    (blk : option (positive * (nat → byte))) (w : world) :
  st1 ≠ 0 → st2 ≠ 0 →
  Posix.SCMallocAligned a b (mkMemalign st1 err blk) w
    = Posix.SCMallocAligned a b (mkMemalign st2 err blk) w
  ∧ (engine_stage w = SURICATA_INIT →
       ∃ w' d, Posix.SCMallocAligned a b (mkMemalign st1 err blk) w
                 = Exits EXIT_FAILURE w' ∧
               diagnostics w' = diagnostics w ++ [d; fatal_record] ∧
               syserr d = Some (errno (leave_errno err w))).
Proof.
  intros H1 H2. unfold_macros. unfold posix_memalign, free.
  destruct err as [e|], blk as [[p junk]|]; simpl;
    rewrite (bool_decide_true _ H1), (bool_decide_true _ H2); simpl;
    rewrite ?lookup_insert_eq; simpl.
  all: split; [reflexivity|]; intros Hs;
    rewrite (bool_decide_true _ Hs);
    simpl; eexists _, _; split; [reflexivity|];
    split; [projections; rewrite <- ?app_assoc; reflexivity | reflexivity].
Qed.

Lemma posix_memalign_status_is_not_reported_witness :
  Posix.SCMallocAligned 64 3 (mkMemalign 22 None None) boot_world
    = Posix.SCMallocAligned 64 3 (mkMemalign ENOMEM None None) boot_world
  ∧ (engine_stage boot_world = SURICATA_INIT →
       ∃ w' d, Posix.SCMallocAligned 64 3 (mkMemalign 22 None None) boot_world
                 = Exits EXIT_FAILURE w' ∧
               diagnostics w' = diagnostics boot_world ++ [d; fatal_record] ∧
               syserr d = Some (errno (leave_errno None boot_world))).
Proof.
  apply (posix_memalign_status_is_not_reported 64 3 22 ENOMEM None None boot_world);
    discriminate.
Defined.

(** X11.  Allocating with [Posix.SCMallocAligned] and releasing the result
    with [Posix.SCFreeAligned] round-trips: both calls return, the heap is
    back to what it was, the block is recorded as released, and neither call
    has read the gate or logged. *)
Theorem Posix_aligned_round_trip
    (a b : Z) (err : option Z) (p : positive) (junk : nat → byte) (w : world) :
  heap w !! p = None →
  ∃ w1 w2,
    Posix.SCMallocAligned a b (mkMemalign 0 err (Some (p, junk))) w
      = Returns (Ptr p) w1 ∧
    Posix.SCFreeAligned (Ptr p) w1 = Returns tt w2 ∧
    heap w2 = heap w ∧
    released w2 = released w ++ [p] ∧
    gate_reads w2 = gate_reads w ∧ diagnostics w2 = diagnostics w.
Proof.
  intros Hfresh.
  exists (hand_out Libc p (fresh_block junk (size_t a)) (leave_errno err w)),
         (give_back Libc p
            (hand_out Libc p (fresh_block junk (size_t a)) (leave_errno err w))).
  split; [reflexivity|].
  split; [unfold_macros; unfold free; simpl; rewrite lookup_insert_eq; reflexivity|].
  split; [destruct err; simpl; rewrite delete_insert_eq; apply delete_id;
          exact Hfresh|].
  destruct err; repeat split; projections; reflexivity.
Qed.

Lemma Posix_aligned_round_trip_witness :
  ∃ w1 w2,
    Posix.SCMallocAligned 64 16
      (mkMemalign 0 None (Some (7%positive, fun _ => "U"%byte)))
      run_world = Returns (Ptr 7) w1 ∧
    Posix.SCFreeAligned (Ptr 7) w1 = Returns tt w2 ∧
    heap w2 = heap run_world ∧
    released w2 = released run_world ++ [7%positive] ∧
    gate_reads w2 = gate_reads run_world ∧ diagnostics w2 = diagnostics run_world.
Proof.
  apply (Posix_aligned_round_trip 64 16 None 7 (fun _ => "U"%byte) run_world).
  reflexivity.
Defined.

(** X12.  The same round trip under [_WIN32], where the pair is
    [_mm_malloc] and [_mm_free]: the release is recorded in the family the
    block came from. *)
Theorem Win32_aligned_round_trip
    (a b : Z) (p : positive) (junk : nat → byte) (w : world) :
  heap w !! p = None →
  ∃ w1 w2,
    Win32.SCMallocAligned a b (AllocOk p junk) w = Returns (Ptr p) w1 ∧
    Win32.SCFreeAligned (Ptr p) w1 = Returns tt w2 ∧
    heap w2 = heap w ∧
    trace w2 = trace w ++ [EvAlloc Mm p (size_t a); EvRelease Mm p].
Proof.
  intros Hfresh.
  exists (hand_out Mm p (fresh_block junk (size_t a)) w),
         (give_back Mm p (hand_out Mm p (fresh_block junk (size_t a)) w)).
  split; [reflexivity|].
  split; [unfold_macros; unfold _mm_free; simpl; rewrite lookup_insert_eq;
          reflexivity|].
  split; [simpl; rewrite delete_insert_eq; apply delete_id; exact Hfresh|].
  simpl. rewrite (length_fresh_block _ _ (size_t_nonneg a)), <- app_assoc.
  reflexivity.
Qed.

Lemma Win32_aligned_round_trip_witness :
  ∃ w1 w2,
    Win32.SCMallocAligned 64 16 (AllocOk 7 (fun _ => "U"%byte)) run_world
      = Returns (Ptr 7) w1 ∧
    Win32.SCFreeAligned (Ptr 7) w1 = Returns tt w2 ∧
    heap w2 = heap run_world ∧
    trace w2 = trace run_world ++ [EvAlloc Mm 7 (size_t 64); EvRelease Mm 7].
Proof.
  apply (Win32_aligned_round_trip 64 16 7 (fun _ => "U"%byte) run_world).
  reflexivity.
Defined.

(** *** The libc wrappers, continued *)

(** X13.  The byte count in the diagnostic of a failed [SCCalloc] is the
    element size alone: the number of elements does not enter it. *)
Theorem SCCalloc_record_ignores_count (nm a : Z) (r : alloc_reply) (w : world) :
  primitive_fails (CallCalloc nm a r) w = true →
  engine_stage w = SURICATA_INIT →
  ∃ w' d, SCCalloc nm a r w = Exits EXIT_FAILURE w' ∧
          diagnostics w' = diagnostics w ++ [d; fatal_record] ∧
          bytes d = Some (uintmax_t a).
Proof.
  intros Hf Hs. revert Hf.
  unfold_macros. unfold_primitives.
  destruct (bool_decide (SIZE_MODULUS ≤ size_t nm * size_t a));
    [|destruct r as [e|p junk]]; simpl; intros Hf; try discriminate.
  all: rewrite (bool_decide_true _ Hs); simpl;
    eexists _, _; split; [reflexivity|];
    split; [projections; rewrite <- ?app_assoc; reflexivity | reflexivity].
Qed.

Lemma SCCalloc_record_ignores_count_witness :
  ∃ w' d, SCCalloc 1000 4 (AllocFail ENOMEM) boot_world = Exits EXIT_FAILURE w' ∧
          diagnostics w' = diagnostics boot_world ++ [d; fatal_record] ∧
          bytes d = Some (uintmax_t 4).
Proof.
  apply (SCCalloc_record_ignores_count 1000 4 (AllocFail ENOMEM) boot_world);
    reflexivity.
Defined.

(** X14.  [SCRealloc] on [NULL] is [SCMalloc].  On every path but the
    fatal one the two return the same pointer in the same world.  On the
    fatal path both exit with [EXIT_FAILURE] after the same gate read and
    the same two records, which differ in nothing but the text of the
    first. *)
Theorem SCRealloc_NULL_is_SCMalloc (a : Z) (r : realloc_reply) (w : world) :
  (primitive_fails (CallMalloc a (rr_answer r)) w = false
     ∨ engine_stage w ≠ SURICATA_INIT →
   SCRealloc NULL a r w = SCMalloc a (rr_answer r) w)
  ∧ (primitive_fails (CallMalloc a (rr_answer r)) w = true →
     engine_stage w = SURICATA_INIT →
     ∃ w1 d1 d2,
       SCRealloc NULL a r w = Exits EXIT_FAILURE (fatal_world d1 w1) ∧
       SCMalloc a (rr_answer r) w = Exits EXIT_FAILURE (fatal_world d2 w1) ∧
       category d1 = category d2 ∧ syserr d1 = syserr d2 ∧
       bytes d1 = bytes d2 ∧ alignment d1 = alignment d2 ∧
       message d1 = "SCRealloc failed: %s, while trying to allocate %ju bytes" ∧
       message d2 = "SCMalloc failed: %s, while trying to allocate %ju bytes").
Proof.
  destruct r as [zf [e|p junk]]; split.
  - intros H. unfold_macros. unfold_primitives. simpl in *.
    destruct H as [H|H]; [discriminate|].
    rewrite (bool_decide_false _ H). reflexivity.
  - intros _ Hs. unfold_macros. unfold_primitives. simpl.
    rewrite (bool_decide_true _ Hs). simpl.
    eexists (set_errno e w), _, _.
    split; [reflexivity|]. split; [reflexivity|]. repeat split.
  - intros _. reflexivity.
  - intros H. discriminate.
Qed.

Lemma SCRealloc_NULL_is_SCMalloc_witness :
  SCRealloc NULL 16 (mkRealloc true (AllocOk 5 (fun _ => "U"%byte))) boot_world
    = SCMalloc 16 (AllocOk 5 (fun _ => "U"%byte)) boot_world
  ∧ ∃ w1 d1 d2,
      SCRealloc NULL 16 (mkRealloc true (AllocFail ENOMEM)) boot_world
        = Exits EXIT_FAILURE (fatal_world d1 w1) ∧
      SCMalloc 16 (AllocFail ENOMEM) boot_world
        = Exits EXIT_FAILURE (fatal_world d2 w1) ∧
      category d1 = category d2 ∧ syserr d1 = syserr d2 ∧
      bytes d1 = bytes d2 ∧ alignment d1 = alignment d2 ∧
      message d1 = "SCRealloc failed: %s, while trying to allocate %ju bytes" ∧
      message d2 = "SCMalloc failed: %s, while trying to allocate %ju bytes".
Proof.
  split.
  - apply (proj1 (SCRealloc_NULL_is_SCMalloc 16
                    (mkRealloc true (AllocOk 5 (fun _ => "U"%byte))) boot_world)).
    left. reflexivity.
  - apply (proj2 (SCRealloc_NULL_is_SCMalloc 16
                    (mkRealloc true (AllocFail ENOMEM)) boot_world));
      reflexivity.
Defined.

(** X15.  [SCRealloc] of a live block to a size of zero, on an allocator
    that answers such a request by releasing the block and returning
    [NULL]: the macro takes that [NULL] for a failure.  Past initialisation
    it returns [NULL] with the block released and [errno] as it was; while
    the engine initialises it logs an allocation of 0 bytes as failed and
    exits, the block being released all the same. *)
Theorem SCRealloc_zero_is_taken_for_failure
    (q : positive) (a : Z) (r : realloc_reply) (blk : list byte) (w : world) :
  heap w !! q = Some blk →
  size_t a = 0 →
  rr_zero_frees r = true →
  (engine_stage w ≠ SURICATA_INIT →
     ∃ w', SCRealloc (Ptr q) a r w = Returns NULL w' ∧
           heap w' = delete q (heap w) ∧
           released w' = released w ++ [q] ∧
           errno w' = errno w ∧
           diagnostics w' = diagnostics w)
  ∧ (engine_stage w = SURICATA_INIT →
     ∃ w' d, SCRealloc (Ptr q) a r w = Exits EXIT_FAILURE w' ∧
             heap w' = delete q (heap w) ∧
             diagnostics w' = diagnostics w ++ [d; fatal_record] ∧
             category d = SC_ERR_MEM_ALLOC ∧
             bytes d = Some 0).
Proof.
  intros Hq Ha Hz. destruct r as [zf r]. simpl in Hz. subst zf.
  unfold_macros. unfold realloc. rewrite Hq. simpl.
  rewrite (bool_decide_true _ Ha). simpl.
  split; intros Hs.
  - rewrite (bool_decide_false _ Hs). simpl.
    eexists. split; [reflexivity|]. repeat split; projections; reflexivity.
  - rewrite (bool_decide_true _ Hs). simpl.
    eexists _, _. split; [reflexivity|]. split; [reflexivity|].
    split; [projections; rewrite <- ?app_assoc; reflexivity|].
    split; [reflexivity|]. simpl. unfold uintmax_t. unfold size_t in Ha.
    rewrite Ha. reflexivity.
Qed.

Lemma SCRealloc_zero_is_taken_for_failure_witness :
  (∃ w', SCRealloc (Ptr 5) 0 (mkRealloc true (AllocFail ENOMEM)) live_world
           = Returns NULL w' ∧
         heap w' = delete 5%positive (heap live_world) ∧
         released w' = released live_world ++ [5%positive] ∧
         errno w' = errno live_world ∧
         diagnostics w' = diagnostics live_world)
  ∧ (∃ w' d, SCRealloc (Ptr 5) 0 (mkRealloc true (AllocFail ENOMEM)) live_boot_world
               = Exits EXIT_FAILURE w' ∧
             heap w' = delete 5%positive (heap live_boot_world) ∧
             diagnostics w' = diagnostics live_boot_world ++ [d; fatal_record] ∧
             category d = SC_ERR_MEM_ALLOC ∧
             bytes d = Some 0).
Proof.
  split.
  - apply (proj1 (SCRealloc_zero_is_taken_for_failure 5 0
                    (mkRealloc true (AllocFail ENOMEM)) [x00] live_world
                    eq_refl eq_refl eq_refl)).
    discriminate.
  - apply (proj2 (SCRealloc_zero_is_taken_for_failure 5 0
                    (mkRealloc true (AllocFail ENOMEM)) [x00] live_boot_world
                    eq_refl eq_refl eq_refl)).
    reflexivity.
Defined.
